(** * vscode-linter-api: the linter contract

    The package consists of type declarations (src/out/index.d.ts, and an
    earlier build of the same declarations, src/unnamed/part_000) and of one
    run-time object, the enum [LinterOffenseSeverity] built by
    src/out/index.js.

    - [Module TS] gives the declarations a meaning: the syntax of the
      TypeScript types that occur in them, JavaScript values, and the
      judgment "value [v] is assignable to type [t]" as a boolean function.
    - [Module IndexDts] and [Module Part000] transcribe the two declaration
      files, type alias by type alias.
    - [Module IndexJs] runs index.js statement by statement over a heap of
      mutable objects.
    - [Module Samples] holds the records the examples are stated on. *)

From stdpp Require Import base gmap strings list fin_maps pretty.

Local Open Scope string_scope.
Local Open Scope Z_scope.

(* ===================================================================== *)
(** ** TypeScript types and JavaScript values *)
(* ===================================================================== *)

Module TS.

Local Unset Elimination Schemes.

(** The type expressions used by the declaration files.  A property of an
    object type is [(name, (optional, type))]; [optional] is the [?]
    modifier. *)
Inductive ty :=
| TString
| TNumber
| TBoolean
| TUnknown
| TExternal (name : string)             (* imported class: Uri, TextDocument *)
| TEnum (ordinals : list Z)             (* numeric enum, by member values *)
| TArray (elem : ty)                    (* elem[] *)
| TTuple (elems : list ty)              (* [t1, ..., tn] *)
| TObject (fields : list (string * (bool * ty)))   (* { k: t; k'?: t' } *)
| TIndex (elem : ty)                    (* { [key: string]: elem } *)
| TUnion (a b : ty)                     (* a | b *)
| TInter (a b : ty)                     (* a & b *)
| TFun (param ret : ty)                 (* (params: param) => ret *)
| TPromise (result : ty).               (* Promise<result> *)

(** JavaScript values.  Numbers are the integer-valued ones: ordinals,
    line and column numbers, offsets and exit codes.  A closure is known by
    the signature it was compiled against; its body is adapter code and is
    not part of this package.  [VPromise v] is a promise that resolves to
    [v]. *)
Inductive value :=
| VUndefined
| VNull
| VBool (b : bool)
| VNum (z : Z)
| VStr (s : string)
| VHost (class : string)
| VArr (items : list value)
| VObj (props : gmap string value)
| VFun (param ret : ty)
| VPromise (settled : value).

Definition field : Type := string * (bool * ty).

(** [k: t] and [k?: t]. *)
Definition req (k : string) (t : ty) : field := (k, (false, t)).
Definition opt (k : string) (t : ty) : field := (k, (true, t)).

Definition field_name (f : field) : string := fst f.
Definition field_optional (f : field) : bool := fst (snd f).
Definition field_type (f : field) : ty := snd (snd f).

(** [keyof T] for an object type with the property list [fs]. *)
Definition keyof (fs : list field) : list string := map field_name fs.

Definition required_keys (fs : list field) : list string :=
  map field_name (filter (λ f, field_optional f = false) fs).

Definition optional_keys (fs : list field) : list string :=
  map field_name (filter (λ f, field_optional f = true) fs).

(** The declaration of property [k], if any. *)
Fixpoint declared (k : string) (fs : list field) : option (bool * ty) :=
  match fs with
  | [] => None
  | f :: fs' => if String.eqb k (field_name f) then Some (snd f) else declared k fs'
  end.

(** The mapped type [{ [key in keyof T]: t }].  It is homomorphic in [T]:
    it has the keys of [T], each with the modifier it has in [T]. *)
Definition mapped_keyof (fs : list field) (t : ty) : list field :=
  map (λ f, (field_name f, (field_optional f, t))) fs.

(** Structural equality of type expressions. *)
Fixpoint ty_eqb (a b : ty) {struct a} : bool :=
  match a, b with
  | TString, TString => true
  | TNumber, TNumber => true
  | TBoolean, TBoolean => true
  | TUnknown, TUnknown => true
  | TExternal c, TExternal d => String.eqb c d
  | TEnum xs, TEnum ys => bool_decide (xs = ys)
  | TArray x, TArray y => ty_eqb x y
  | TTuple xs, TTuple ys =>
      (fix all2 (xs ys : list ty) {struct xs} : bool :=
         match xs, ys with
         | [], [] => true
         | x :: xs', y :: ys' => ty_eqb x y && all2 xs' ys'
         | _, _ => false
         end) xs ys
  | TObject fs, TObject gs =>
      (fix all2 (fs gs : list field) {struct fs} : bool :=
         match fs, gs with
         | [], [] => true
         | (k, (o, t)) :: fs', (k', (o', t')) :: gs' =>
             String.eqb k k' && Bool.eqb o o' && ty_eqb t t' && all2 fs' gs'
         | _, _ => false
         end) fs gs
  | TIndex x, TIndex y => ty_eqb x y
  | TUnion x1 x2, TUnion y1 y2 => ty_eqb x1 y1 && ty_eqb x2 y2
  | TInter x1 x2, TInter y1 y2 => ty_eqb x1 y1 && ty_eqb x2 y2
  | TFun p r, TFun p' r' => ty_eqb p p' && ty_eqb r r'
  | TPromise x, TPromise y => ty_eqb x y
  | _, _ => false
  end.

Definition is_undefined (v : value) : bool :=
  match v with VUndefined => true | _ => false end.

(** One property of an object type against the object [o]: a required
    property must be there with a value of its type; an optional one may be
    missing or hold [undefined].  Properties of [o] that the type does not
    declare are not looked at. *)
Definition check_property (check : value → bool) (optional : bool)
    (o : gmap string value) (k : string) : bool :=
  match o !! k with
  | None => optional
  | Some x => (optional && is_undefined x) || check x
  end.

(** [has_type t v]: the value [v] is assignable to the type [t].  Two
    cases are narrower than the compiler's relation: an enum type takes the
    values of its members only (the compiler also lets a number-typed
    expression through), and a function type takes the closures compiled
    against that very signature (the compiler relates signatures by
    variance). *)
Fixpoint has_type (t : ty) (v : value) {struct t} : bool :=
  match t with
  | TString => match v with VStr _ => true | _ => false end
  | TNumber => match v with VNum _ => true | _ => false end
  | TBoolean => match v with VBool _ => true | _ => false end
  | TUnknown => true
  | TExternal c => match v with VHost d => String.eqb c d | _ => false end
  | TEnum ordinals =>
      match v with VNum z => bool_decide (z ∈ ordinals) | _ => false end
  | TArray elem =>
      match v with VArr items => forallb (has_type elem) items | _ => false end
  | TTuple elems =>
      match v with
      | VArr items =>
          (fix all2 (ts : list ty) (xs : list value) {struct ts} : bool :=
             match ts, xs with
             | [], [] => true
             | t' :: ts', x :: xs' => has_type t' x && all2 ts' xs'
             | _, _ => false
             end) elems items
      | _ => false
      end
  | TObject fields =>
      match v with
      | VObj o =>
          (fix all (fs : list field) {struct fs} : bool :=
             match fs with
             | [] => true
             | (k, (optional, t')) :: fs' =>
                 check_property (has_type t') optional o k && all fs'
             end) fields
      | _ => false
      end
  | TIndex elem =>
      match v with
      | VObj o => forallb (λ kv, has_type elem (snd kv)) (map_to_list o)
      | _ => false
      end
  | TUnion a b => has_type a v || has_type b v
  | TInter a b => has_type a v && has_type b v
  | TFun p r =>
      match v with VFun p' r' => ty_eqb p p' && ty_eqb r r' | _ => false end
  | TPromise result =>
      match v with VPromise x => has_type result x | _ => false end
  end.

(** The property list of an object type checked against an object. *)
Definition has_fields (fs : list field) (o : gmap string value) : bool :=
  forallb (λ f, check_property (has_type (field_type f)) (field_optional f) o
                  (field_name f)) fs.

(** The property names [t] knows of; [None] is every name (an index
    signature).  A member of an intersection or of a union contributes the
    names it knows. *)
Fixpoint known_keys (t : ty) : option (list string) :=
  match t with
  | TObject fs => Some (keyof fs)
  | TIndex _ => None
  | TInter a b | TUnion a b =>
      match known_keys a, known_keys b with
      | Some ka, Some kb => Some (ka ++ kb)%list
      | _, _ => None
      end
  | _ => Some []
  end.

(** The keys of an object that [t] does not know of. *)
Definition excess_keys (t : ty) (o : gmap string value) : list string :=
  match known_keys t with
  | Some known =>
      filter (λ k, k ∉ known) (map fst (map_to_list o))
  | None => []
  end.

(** [literal_has_type t v]: the object literal [v] is accepted where a [t]
    is expected.  On top of assignability, an object literal "may only
    specify known properties": a property of the literal that the type does
    not know of is an error. *)
Definition literal_has_type (t : ty) (v : value) : bool :=
  has_type t v &&
  match v with
  | VObj o => bool_decide (excess_keys t o = [])
  | _ => true
  end.

End TS.

(* ===================================================================== *)
(** ** src/out/index.d.ts *)
(* ===================================================================== *)

Module IndexDts.
Import TS.

(** [import { Uri, TextDocument } from "vscode"]. *)
Definition Uri : ty := TExternal "Uri".
Definition TextDocument : ty := TExternal "TextDocument".

(** [export declare enum LinterOffenseSeverity]. *)
Inductive LinterOffenseSeverity := error | warning | information | hint.

Definition ordinal (s : LinterOffenseSeverity) : Z :=
  match s with
  | error => 0
  | warning => 1
  | information => 2
  | hint => 3
  end.

Definition member_name (s : LinterOffenseSeverity) : string :=
  match s with
  | error => "error"
  | warning => "warning"
  | information => "information"
  | hint => "hint"
  end.

Definition members : list LinterOffenseSeverity :=
  [error; warning; information; hint].

(** The enum used as a type. *)
Definition LinterOffenseSeverity_ty : ty := TEnum (map ordinal members).

(** The two members of the union type of [inlineFix]. *)
Definition Position : ty :=
  TObject [req "column" TNumber; req "line" TNumber].

Definition InlineFixRange_fields : list field :=
  [req "replacement" TString;
   req "start" Position;
   req "end" Position].

Definition InlineFixOffset_fields : list field :=
  [req "replacement" TString;
   req "offset" (TTuple [TNumber; TNumber])].

Definition InlineFixRange : ty := TObject InlineFixRange_fields.
Definition InlineFixOffset : ty := TObject InlineFixOffset_fields.

Definition InlineFix : ty := TUnion InlineFixRange InlineFixOffset.

Definition LinterOffense_fields : list field :=
  [req "code" TString;
   req "message" TString;
   req "source" TString;
   req "uri" Uri;
   req "severity" LinterOffenseSeverity_ty;
   req "lineStart" TNumber;
   req "columnStart" TNumber;
   req "lineEnd" TNumber;
   req "columnEnd" TNumber;
   req "correctable" TBoolean;
   opt "docsUrl" TString;
   opt "inlineFix" InlineFix;
   opt "meta" TUnknown].

Definition LinterOffense : ty := TObject LinterOffense_fields.

(** The properties of [LinterOffense] that part_000 does not declare. *)
Definition added_offense_fields : list field :=
  [opt "inlineFix" InlineFix; opt "meta" TUnknown].

Definition LinterParams : ty :=
  TObject [req "uri" Uri;
           req "stdout" TString;
           req "stderr" TString;
           req "status" TNumber].

Definition Line : ty :=
  TObject [req "text" TString; req "number" TNumber].

Definition LinterGetIgnoreEolPragmaFunction : ty :=
  TFun (TObject [req "line" Line; req "code" TString])
       (TPromise TString).

Definition LinterGetIgnoreLinePragmaFunction : ty :=
  TFun (TObject [req "line" Line; req "code" TString; req "indent" TString])
       (TPromise TString).

Definition LinterGetIgnoreFilePragmaFunction : ty :=
  TFun (TObject [req "line" Line; req "code" TString; req "indent" TString;
                 req "document" TextDocument])
       (TPromise TString).

Definition LinterParseFixOutputFunction : ty :=
  TFun (TObject [req "input" TString; req "stdout" TString;
                 req "stderr" TString; req "uri" Uri])
       (TPromise TString).

Definition LinterGetOffensesFunction : ty :=
  TFun LinterParams (TPromise (TArray LinterOffense)).

Definition Linter_fields : list field :=
  [req "getOffenses" LinterGetOffensesFunction;
   opt "getIgnoreEolPragma" LinterGetIgnoreEolPragmaFunction;
   opt "getIgnoreLinePragma" LinterGetIgnoreLinePragmaFunction;
   opt "getIgnoreFilePragma" LinterGetIgnoreFilePragmaFunction;
   opt "parseFixOutput" LinterParseFixOutputFunction].

Definition Linter : ty := TObject Linter_fields.

Definition Command : ty :=
  TUnion (TArray TString) (TArray (TArray TString)).

Definition LinterConfigType_fields : list field :=
  [req "name" TString;
   req "command" Command;
   req "configFiles" (TArray TString);
   req "enabled" TBoolean;
   req "languages" (TArray TString);
   req "capabilities" (TArray TString);
   opt "args" (TIndex (TObject [opt "languages" (TArray TString);
                                opt "extensions" (TArray TString);
                                opt "shebangs" (TArray TString)]));
   req "url" TString;
   req "when" (TArray TString);
   opt "importPath" TString].

Definition LinterConfigType : ty := TObject LinterConfigType_fields.

(** [LinterConfigType & { [key in keyof LinterConfigType]: unknown }]. *)
Definition LinterConfig : ty :=
  TInter LinterConfigType
         (TObject (mapped_keyof LinterConfigType_fields TUnknown)).

(** The capability names listed in the comment on [capabilities]. *)
Definition documented_capabilities : list string :=
  ["ignore-all"; "ignore-line"; "ignore-eol";
   "fix-one"; "fix-category"; "fix-all"].

(** The position properties, each commented "Must be zero-indexed and
    equal to or greater than zero". *)
Definition position_keys : list string :=
  ["lineStart"; "columnStart"; "lineEnd"; "columnEnd"].




(** Which distinguishing properties an [inlineFix] value carries. *)
Definition has_property (v : value) (k : string) : bool :=
  match v with
  | VObj o => bool_decide (is_Some (o !! k))
  | _ => false
  end.

Definition carries_offset (fix_ : value) : bool := has_property fix_ "offset".

Definition carries_range (fix_ : value) : bool :=
  has_property fix_ "start" && has_property fix_ "end".

(** Exactly one of the two shapes: the distinguishing properties of one
    and none of the other. *)
Definition exactly_one_shape (fix_ : value) : bool :=
  (carries_offset fix_ && negb (has_property fix_ "start")
     && negb (has_property fix_ "end"))
  || (carries_range fix_ && negb (carries_offset fix_)).

(** The operations of the adapter contract. *)
Definition operations : list string :=
  ["getOffenses"; "getIgnoreEolPragma"; "getIgnoreLinePragma";
   "getIgnoreFilePragma"; "parseFixOutput"].

End IndexDts.

(* ===================================================================== *)
(** ** src/unnamed/part_000: the earlier build of the declarations *)
(* ===================================================================== *)

Module Part000.
Import TS.

(** [import { Uri } from "vscode"]. *)
Definition Uri : ty := TExternal "Uri".

(** [export declare enum LinterOffenseSeverity], members with values. *)
Definition LinterOffenseSeverity_members : list (string * Z) :=
  [("error", 0); ("warning", 1); ("information", 2); ("hint", 3)].

Definition LinterOffenseSeverity_ty : ty :=
  TEnum (map snd LinterOffenseSeverity_members).

Definition LinterOffense_fields : list field :=
  [req "code" TString;
   req "message" TString;
   req "source" TString;
   req "uri" Uri;
   req "severity" LinterOffenseSeverity_ty;
   req "lineStart" TNumber;
   req "columnStart" TNumber;
   req "lineEnd" TNumber;
   req "columnEnd" TNumber;
   req "correctable" TBoolean;
   opt "docsUrl" TString].

Definition LinterOffense : ty := TObject LinterOffense_fields.

Definition LinterParams : ty :=
  TObject [req "uri" Uri;
           req "stdout" TString;
           req "stderr" TString;
           req "status" TNumber].

Definition Line : ty :=
  TObject [req "text" TString; req "number" TNumber].

Definition LinterGetIgnoreEolPragmaFunction : ty :=
  TFun (TObject [req "line" Line; req "code" TString]) TString.

Definition LinterGetIgnoreLinePragmaFunction : ty :=
  TFun (TObject [req "line" Line; req "code" TString; req "indent" TString])
       TString.

Definition LinterGetIgnoreFilePragmaFunction : ty :=
  TFun (TObject [req "line" Line; req "code" TString; req "indent" TString])
       TString.

Definition LinterParseFixOutputFunction : ty :=
  TFun (TObject [req "input" TString; req "stdout" TString;
                 req "stderr" TString])
       TString.

Definition LinterGetOffensesFunction : ty :=
  TFun LinterParams (TArray LinterOffense).

Definition Linter_fields : list field :=
  [req "getOffenses" LinterGetOffensesFunction;
   opt "getIgnoreEolPragma" LinterGetIgnoreEolPragmaFunction;
   opt "getIgnoreLinePragma" LinterGetIgnoreLinePragmaFunction;
   opt "getIgnoreFilePragma" LinterGetIgnoreFilePragmaFunction;
   opt "parseFixOutput" LinterParseFixOutputFunction].

Definition Linter : ty := TObject Linter_fields.

Definition Command : ty :=
  TUnion (TArray TString) (TArray (TArray TString)).

Definition LinterConfigType_fields : list field :=
  [req "name" TString;
   req "command" Command;
   req "configFiles" (TArray TString);
   req "enabled" TBoolean;
   req "languages" (TArray TString);
   req "capabilities" (TArray TString);
   opt "args" (TIndex (TObject [opt "languages" (TArray TString);
                                opt "extensions" (TArray TString)]));
   req "url" TString;
   req "when" (TArray TString);
   opt "importPath" TString].

Definition LinterConfigType : ty := TObject LinterConfigType_fields.

Definition LinterConfig : ty :=
  TInter LinterConfigType
         (TObject (mapped_keyof LinterConfigType_fields TUnknown)).

End Part000.





(** The parameter type of the operation [k] of the contract [fs]. *)
Definition param_type (fs : list TS.field) (k : string) : option TS.ty :=
  match TS.declared k fs with
  | Some (_, TS.TFun p _) => Some p
  | _ => None
  end.

(* ===================================================================== *)
(** ** src/out/index.js *)
(* ===================================================================== *)

Module IndexJs.

(** Objects live in a heap and are handled through references, so that the
    local variable [LinterOffenseSeverity] and the property
    [exports.LinterOffenseSeverity] name the same object.

    An object is an ordinary object reduced to its own properties: it is
    extensible, and each property is a writable, configurable data property.
    There are no prototypes, accessors or property attributes, and no frozen
    or sealed objects; index.js reads and writes own properties only. *)
Abbreviation loc := positive.

Inductive jsval :=
| JUndefined
| JBool (b : bool)
| JNum (z : Z)
| JStr (s : string)
| JRef (l : loc).

Abbreviation object := (gmap string jsval).
Abbreviation heap := (gmap loc (gmap string jsval)).

(** Evaluation threads the heap; [None] is a thrown [TypeError] (a property
    read or written on [undefined] or on another primitive). *)
Definition js (A : Type) : Type := heap → option (A * heap).

Definition ret {A} (a : A) : js A := λ h, Some (a, h).

Definition bind {A B} (c : js A) (k : A → js B) : js B :=
  λ h, match c h with
       | Some (a, h') => k a h'
       | None => None
       end.

Definition throw {A} : js A := λ _, None.

Declare Scope js_scope.
Delimit Scope js_scope with js.
Notation "'let*' x ':=' c 'in' k" := (bind c (λ x, k))
  (at level 10, x name, c at level 100, k at level 200) : js_scope.
Notation "c ';;' k" := (bind c (λ _, k))
  (at level 100, k at level 200, right associativity) : js_scope.
Local Open Scope js_scope.

(** [ToBoolean], for [||]. *)
Definition ToBoolean (v : jsval) : bool :=
  match v with
  | JUndefined => false
  | JBool b => b
  | JNum z => negb (z =? 0)
  | JStr s => negb (String.eqb s "")
  | JRef _ => true
  end.

(** [ToPropertyKey]: property names are strings; a number is written in
    decimal. *)
Definition ToPropertyKey (v : jsval) : string :=
  match v with
  | JUndefined => "undefined"
  | JBool true => "true"
  | JBool false => "false"
  | JNum z => pretty z
  | JStr s => s
  | JRef _ => "[object Object]"
  end.

(** [{}]: a new object. *)
Definition new_object : js jsval :=
  λ h, let l := fresh (dom h) in Some (JRef l, <[l := ∅]> h).

(** [o[k]] as an expression, for a key [k] that is looked up among the own
    properties of [o]. *)
Definition get (o k : jsval) : js jsval :=
  λ h, match o with
       | JRef l =>
           match h !! l with
           | Some props => ret (default JUndefined (props !! ToPropertyKey k)) h
           | None => throw h
           end
       | _ => throw h
       end.

(** [o[k] = v]; the value of an assignment expression is [v]. *)
Definition set (o k v : jsval) : js jsval :=
  λ h, match o with
       | JRef l =>
           match h !! l with
           | Some props => ret v (<[l := <[ToPropertyKey k := v]> props]> h)
           | None => throw h
           end
       | _ => throw h
       end.

(** [Object.defineProperty(o, k, descriptor)] for a data descriptor, on an
    ordinary extensible object: the property gets the descriptor's
    [value]. *)
Definition defineProperty (o k descriptor : jsval) : js jsval :=
  let* v := get descriptor (JStr "value") in
  set o k v ;;
  ret o.

(** [a || b], with [b] evaluated only when [a] is falsy. *)
Definition or_else (a : jsval) (b : js jsval) : js jsval :=
  if ToBoolean a then ret a else b.

(** One line of the function body:
    [E[E["name"] = n] = "name";] *)
Definition enum_member (E : jsval) (name : string) (n : Z) : js unit :=
  let* i := set E (JStr name) (JNum n) in
  set E i (JStr name) ;;
  ret tt.

(** The function expression, applied to its argument. *)
Definition enum_body (LinterOffenseSeverity : jsval) : js unit :=
  enum_member LinterOffenseSeverity "error" 0 ;;
  enum_member LinterOffenseSeverity "warning" 1 ;;
  enum_member LinterOffenseSeverity "information" 2 ;;
  enum_member LinterOffenseSeverity "hint" 3.

(** The module body, run with the module's [exports] object.  It returns
    the final value of the variable [LinterOffenseSeverity].  The function
    expression is applied on the spot; its function object, which nothing
    refers to afterwards, is not put on the heap. *)
Definition module_body (exports : jsval) : js jsval :=
  (* Object.defineProperty(exports, "__esModule", { value: true }); *)
  let* d := new_object in
  set d (JStr "value") (JBool true) ;;
  defineProperty exports (JStr "__esModule") d ;;
  (* exports.LinterOffenseSeverity = void 0; *)
  set exports (JStr "LinterOffenseSeverity") JUndefined ;;
  (* var LinterOffenseSeverity;
     (function (LinterOffenseSeverity) { ... })(LinterOffenseSeverity =
         exports.LinterOffenseSeverity || (exports.LinterOffenseSeverity = {})); *)
  let* e := get exports (JStr "LinterOffenseSeverity") in
  let* LinterOffenseSeverity :=
    or_else e (let* o := new_object in
               set exports (JStr "LinterOffenseSeverity") o) in
  enum_body LinterOffenseSeverity ;;
  ret LinterOffenseSeverity.

(** Loading the module: [exports] starts as an empty object. *)
Definition exports_loc : loc := 1%positive.
Definition initial_heap : heap := {[ exports_loc := ∅ ]}.

Definition load : option (jsval * heap) :=
  module_body (JRef exports_loc) initial_heap.

(** [require("./index").LinterOffenseSeverity[k]], after loading. *)
Definition LinterOffenseSeverity (k : jsval) : option jsval :=
  match load with
  | Some (_, h) =>
      match (let* E := get (JRef exports_loc) (JStr "LinterOffenseSeverity") in
             get E k) h with
      | Some (v, _) => Some v
      | None => None
      end
  | None => None
  end.

(** [E[E[k]]] and [E[E[E[k]]]] on the exported enum object [E]. *)
Definition then_index (r : option jsval) : option jsval :=
  match r with
  | Some v => LinterOffenseSeverity v
  | None => None
  end.

Definition there_and_back (k : jsval) : option jsval :=
  then_index (LinterOffenseSeverity k).

Definition there_and_back_again (k : jsval) : option jsval :=
  then_index (there_and_back k).

(** The own property names of the exported enum object. *)
Definition LinterOffenseSeverity_keys : option (gset string) :=
  match load with
  | Some (_, h) =>
      match (get (JRef exports_loc) (JStr "LinterOffenseSeverity")) h with
      | Some (JRef l, _) => dom <$> (h !! l)
      | _ => None
      end
  | None => None
  end.

(** The entries the function body writes, in the order of the source. *)
Definition enum_entries : list (string * jsval) :=
  [("error", JNum 0); ("0", JStr "error");
   ("warning", JNum 1); ("1", JStr "warning");
   ("information", JNum 2); ("2", JStr "information");
   ("hint", JNum 3); ("3", JStr "hint")].

Definition enum_keys : list string := map fst enum_entries.

(** The object [props] after the function body has run on it: the entries
    are written one after the other, the first one first. *)
Definition with_enum_entries (props : gmap string jsval) : gmap string jsval :=
  foldl (λ acc kv, <[fst kv := snd kv]> acc) props enum_entries.

(** Loading the module a second time, with the same [exports]. *)
Definition load_twice (exports : jsval) : js (jsval * jsval) :=
  let* first := module_body exports in
  let* second := module_body exports in
  ret (first, second).

(** A heap in which [exports] already has properties: one of its own, and
    a [LinterOffenseSeverity] left by an earlier module, whose object holds
    a stale [error] and a property of its own; a third object belongs to
    someone else. *)
Definition stale_loc : loc := 2%positive.
Definition other_loc : loc := 5%positive.

Definition busy_exports : gmap string jsval :=
  list_to_map [("version", JStr "1.0");
               ("LinterOffenseSeverity", JRef stale_loc)].

Definition stale_enum : gmap string jsval :=
  list_to_map [("error", JNum 9); ("custom", JStr "kept")].

Definition other_object : gmap string jsval :=
  list_to_map [("name", JStr "other")].

Definition busy_heap : heap :=
  list_to_map [(exports_loc, busy_exports);
               (stale_loc, stale_enum);
               (other_loc, other_object)].

End IndexJs.

(* ===================================================================== *)
(** ** Records used as examples *)
(* ===================================================================== *)

Module Samples.
Import TS.

Definition uri : value := VHost "Uri".

(** An offense on line 3, columns 0 to 10. *)
Definition offense : gmap string value :=
  list_to_map
    [("code", VStr "E001");
     ("message", VStr "Unused variable");
     ("source", VStr "luacheck");
     ("uri", uri);
     ("severity", VNum 0);
     ("lineStart", VNum 3);
     ("columnStart", VNum 0);
     ("lineEnd", VNum 3);
     ("columnEnd", VNum 10);
     ("correctable", VBool true)].

Definition position (line column : Z) : value :=
  VObj (list_to_map [("line", VNum line); ("column", VNum column)]).

(** [{replacement, offset}]. *)
Definition fix_by_offset : value :=
  VObj (list_to_map [("replacement", VStr "foo");
                     ("offset", VArr [VNum 12; VNum 22])]).

(** [{replacement, start, end}]. *)
Definition fix_by_range : value :=
  VObj (list_to_map [("replacement", VStr "foo");
                     ("start", position 3 0);
                     ("end", position 3 10)]).

(** A fix that carries [offset] as well as [start] and [end]. *)
Definition fix_both : value :=
  VObj (list_to_map [("replacement", VStr "foo");
                     ("offset", VArr [VNum 12; VNum 22]);
                     ("start", position 3 0);
                     ("end", position 3 10)]).

(** A fix with [replacement] only. *)
Definition fix_neither : value :=
  VObj (list_to_map [("replacement", VStr "foo")]).

Definition offense_with (fix_ : value) : gmap string value :=
  <["inlineFix" := fix_]> offense.



Definition strings (l : list string) : value := VArr (map VStr l).

Definition config_with (capabilities : list string) : gmap string value :=
  list_to_map
    [("name", VStr "luacheck");
     ("command", strings ["luacheck"; "$file"]);
     ("configFiles", strings [".luacheckrc"]);
     ("enabled", VBool true);
     ("languages", strings ["lua"]);
     ("capabilities", strings capabilities);
     ("url", VStr "https://github.com/mpeterv/luacheck");
     ("when", strings [])].

Definition config : gmap string value := config_with ["fix-one"].

(** Keys that [LinterConfigType] does not declare. *)
Definition extra_keys : gmap string value :=
  list_to_map [("timeout", VNum 30);
               ("x-vendor", VObj (list_to_map [("beta", VBool true)]))].

(** Closures compiled against the newer and the older signature of
    [getOffenses]. *)
Definition getOffenses : value :=
  VFun IndexDts.LinterParams (TPromise (TArray IndexDts.LinterOffense)).


(** An adapter that supplies [getOffenses] and nothing else. *)
Definition adapter : gmap string value := {[ "getOffenses" := getOffenses ]}.


(** A command that mixes a token with a token list. *)
Definition command_mixed : value :=
  VArr [VStr "luacheck"; strings ["luacheck"; "$file"]].

(** A configuration whose [args] rule has a [shebangs] that is not a list
    of strings. *)
Definition config_stray_shebangs : gmap string value :=
  <["args" := VObj {[ "$lua" := VObj {[ "shebangs" := VNum 5 ]} ]}]> config.

(** Parameters of [getIgnoreFilePragma] as part_000 declares them, without
    [document], and as index.d.ts declares them. *)
Definition file_pragma_params_part000 : gmap string value :=
  list_to_map
    [("line", VObj (list_to_map [("text", VStr "x = 1"); ("number", VNum 5)]));
     ("code", VStr "E001");
     ("indent", VStr "  ")].

Definition file_pragma_params : gmap string value :=
  <["document" := VHost "TextDocument"]> file_pragma_params_part000.

End Samples.

(* ===================================================================== *)
(** ** Facts about the typing judgment *)
(* ===================================================================== *)

Section TypingFacts.
Import TS.

(** Induction on type expressions, with the hypothesis available for the
    members of a tuple and for the properties of an object type. *)
Lemma ty_nested_ind (P : ty → Prop) :
  P TString → P TNumber → P TBoolean → P TUnknown →
  (∀ c, P (TExternal c)) →
  (∀ os, P (TEnum os)) →
  (∀ e, P e → P (TArray e)) →
  (∀ es, Forall P es → P (TTuple es)) →
  (∀ fs, Forall (λ f, P (field_type f)) fs → P (TObject fs)) →
  (∀ e, P e → P (TIndex e)) →
  (∀ a b, P a → P b → P (TUnion a b)) →
  (∀ a b, P a → P b → P (TInter a b)) →
  (∀ p r, P p → P r → P (TFun p r)) →
  (∀ r, P r → P (TPromise r)) →
  ∀ t, P t.
Proof.
  intros Hs Hn Hb Hu Hx He Ha Ht Ho Hi Hun Hin Hf Hp.
  fix IH 1. intros [ | | | | c | os | e | es | fs | e | a b | a b | p r | r ].
  - exact Hs.
  - exact Hn.
  - exact Hb.
  - exact Hu.
  - apply Hx.
  - apply He.
  - apply Ha, IH.
  - apply Ht. induction es as [ | e es IHes ]; constructor; [ apply IH | exact IHes ].
  - apply Ho. induction fs as [ | [k [o t]] fs IHfs ]; constructor;
      [ apply IH | exact IHfs ].
  - apply Hi, IH.
  - apply Hun; apply IH.
  - apply Hin; apply IH.
  - apply Hf; apply IH.
  - apply Hp, IH.
Qed.


Lemma ty_eqb_refl (a : ty) : ty_eqb a a = true.
Proof.
  induction a using ty_nested_ind; simpl; try reflexivity.
  - apply String.eqb_refl.
  - by apply bool_decide_eq_true.
  - exact IHa.
  - induction H as [ | x xs Hx _ IHxs ]; [ reflexivity | ].
    by rewrite Hx, IHxs.
  - induction H as [ | [k [o t]] xs Hx _ IHxs ]; [ reflexivity | ].
    change (ty_eqb t t = true) in Hx.
    by rewrite String.eqb_refl, Bool.eqb_reflx, Hx, IHxs.
  - exact IHa.
  - by rewrite IHa1, IHa2.
  - by rewrite IHa1, IHa2.
  - by rewrite IHa1, IHa2.
  - exact IHa.
Qed.

(** Values of the primitive types. *)
Lemma has_type_string_inv (v : value) :
  has_type TString v = true → ∃ s, v = VStr s.
Proof. destruct v; try discriminate. eauto. Qed.

Lemma has_type_number_inv (v : value) :
  has_type TNumber v = true → ∃ z, v = VNum z.
Proof. destruct v; try discriminate. eauto. Qed.


Lemma has_type_fun (p r : ty) : has_type (TFun p r) (VFun p r) = true.
Proof. simpl. by rewrite !ty_eqb_refl. Qed.

(** An object type is checked property by property. *)
Lemma has_type_object (fs : list field) (v : value) :
  has_type (TObject fs) v =
    match v with VObj o => has_fields fs o | _ => false end.
Proof.
  destruct v; try reflexivity. unfold has_fields. simpl.
  induction fs as [ | [k [o t]] fs IH ]; [ reflexivity | ].
  simpl. by rewrite IH.
Qed.

Lemma has_type_inter (a b : ty) (v : value) :
  has_type (TInter a b) v = has_type a v && has_type b v.
Proof. reflexivity. Qed.

Lemma has_type_union (a b : ty) (v : value) :
  has_type (TUnion a b) v = has_type a v || has_type b v.
Proof. reflexivity. Qed.

Lemma has_fields_cons (f : field) (fs : list field) (o : gmap string value) :
  has_fields (f :: fs) o =
    check_property (has_type (field_type f)) (field_optional f) o (field_name f)
    && has_fields fs o.
Proof. reflexivity. Qed.

(** A required property of a well-typed object is present and has the
    declared type. *)
Lemma has_fields_required (fs : list field) (o : gmap string value)
      (k : string) (t : ty) :
  has_fields fs o = true → In (req k t) fs →
  ∃ v, o !! k = Some v ∧ has_type t v = true.
Proof.
  unfold has_fields. rewrite forallb_forall. intros Hall Hin.
  specialize (Hall _ Hin). unfold check_property in Hall. simpl in Hall.
  destruct (o !! k) as [v | ]; [ eauto | discriminate ].
Qed.

(** An optional property of a well-typed object is missing, [undefined],
    or has the declared type. *)
Lemma has_fields_optional (fs : list field) (o : gmap string value)
      (k : string) (t : ty) (v : value) :
  has_fields fs o = true → In (opt k t) fs →
  o !! k = Some v → v ≠ VUndefined → has_type t v = true.
Proof.
  unfold has_fields. rewrite forallb_forall. intros Hall Hin Hk Hv.
  specialize (Hall _ Hin). unfold check_property in Hall. simpl in Hall.
  rewrite Hk in Hall. apply orb_true_iff in Hall as [Hu | Ht]; [ | exact Ht ].
  destruct v; try discriminate. congruence.
Qed.

(** Only the declared properties are looked at: two objects that agree on
    the keys of the type are both accepted or both refused. *)
Lemma has_fields_agree (fs : list field) (o o' : gmap string value) :
  (∀ k, In k (keyof fs) → o' !! k = o !! k) →
  has_fields fs o' = has_fields fs o.
Proof.
  unfold has_fields. induction fs as [ | f fs IH ]; intros Hagree;
    [ reflexivity | ].
  simpl. unfold check_property at 1 3.
  rewrite (Hagree (field_name f)) by (left; reflexivity).
  rewrite IH; [ reflexivity | ].
  intros k Hk. apply Hagree. right. exact Hk.
Qed.

(** The mapped type over [unknown] asks nothing that the type it is mapped
    from does not ask. *)
Lemma has_fields_mapped_unknown (fs : list field) (o : gmap string value) :
  has_fields fs o = true → has_fields (mapped_keyof fs TUnknown) o = true.
Proof.
  unfold has_fields, mapped_keyof. rewrite !forallb_forall.
  intros Hall f Hf. apply in_map_iff in Hf as [g [<- Hg]].
  specialize (Hall _ Hg). unfold check_property in *. simpl.
  destruct (o !! field_name g); [ | exact Hall ].
  apply orb_true_r.
Qed.

(** It declares the keys of the type it is mapped from, and no other. *)
Lemma keyof_mapped_keyof (fs : list field) (t : ty) :
  keyof (mapped_keyof fs t) = keyof fs.
Proof.
  unfold keyof, mapped_keyof. rewrite map_map. reflexivity.
Qed.

End TypingFacts.

(* ===================================================================== *)
(** ** Loading index.js *)
(* ===================================================================== *)

Section ModuleLoad.
Import IndexJs.
Local Open Scope js_scope.

(** Assignment to a property of a live object. *)
Lemma set_spec (h : heap) (l : loc) (props : object) (k v : jsval) :
  h !! l = Some props →
  set (JRef l) k v h = Some (v, <[l := <[ToPropertyKey k := v]> props]> h).
Proof. intros H. unfold set. by rewrite H. Qed.

(** Reading a property of a live object; a missing one reads [undefined]. *)
Lemma get_spec (h : heap) (l : loc) (props : object) (k : jsval) :
  h !! l = Some props →
  get (JRef l) k h = Some (default JUndefined (props !! ToPropertyKey k), h).
Proof. intros H. unfold get. by rewrite H. Qed.

(** One line of the function body adds the forward and the reverse entry. *)
Lemma enum_member_spec (h : heap) (l : loc) (props : object) (name : string) (n : Z) :
  h !! l = Some props →
  enum_member (JRef l) name n h
  = Some (tt, <[l := <[pretty n := JStr name]> (<[name := JNum n]> props)]> h).
Proof.
  intros H. unfold enum_member, bind.
  rewrite (set_spec _ _ _ _ _ H). 
  rewrite (set_spec _ _ (<[name := JNum n]> props)) by apply lookup_insert_eq.
  simpl. unfold ret. by rewrite insert_insert_eq.
Qed.

(** The function body adds eight entries to the object it is given. *)
Lemma enum_body_spec (h : heap) (l : loc) (props : object) :
  h !! l = Some props →
  enum_body (JRef l) h
  = Some (tt, <[l := <["3" := JStr "hint"]> (<["hint" := JNum 3]>
                     (<["2" := JStr "information"]> (<["information" := JNum 2]>
                     (<["1" := JStr "warning"]> (<["warning" := JNum 1]>
                     (<["0" := JStr "error"]> (<["error" := JNum 0]> props)))))))]> h).
Proof.
  intros H. unfold enum_body, bind.
  rewrite (enum_member_spec _ _ _ _ _ H).
  erewrite enum_member_spec by apply lookup_insert_eq. rewrite insert_insert_eq.
  erewrite enum_member_spec by apply lookup_insert_eq. rewrite insert_insert_eq.
  erewrite enum_member_spec by apply lookup_insert_eq. rewrite insert_insert_eq.
  reflexivity.
Qed.

(** Whatever the heap, and whatever properties the ordinary object
    [exports] has when the module is loaded, loading succeeds, allocates a
    new object [E] for the enum, fills it with the eight entries, and leaves
    a reference to it in [exports.LinterOffenseSeverity]; the variable and
    the export are the same object. *)
Lemma module_body_spec (h : heap) (l : loc) (props : object) :
  h !! l = Some props →
  ∃ E h', module_body (JRef l) h = Some (JRef E, h')
    ∧ h !! E = None
    ∧ h' !! E = Some (list_to_map
         [("error", JNum 0); ("0", JStr "error");
          ("warning", JNum 1); ("1", JStr "warning");
          ("information", JNum 2); ("2", JStr "information");
          ("hint", JNum 3); ("3", JStr "hint")])
    ∧ h' !! l = Some (<["LinterOffenseSeverity" := JRef E]>
                        (<["__esModule" := JBool true]> props)).
Proof.
  intros H.
  set (d := fresh (dom h)).
  assert (Hd : h !! d = None) by (apply not_elem_of_dom, is_fresh).
  assert (Hdl : d ≠ l) by congruence.
  set (h2 := <[l := <["LinterOffenseSeverity" := JUndefined]>
                      (<["__esModule" := JBool true]> props)]>
               (<[d := <["value" := JBool true]> ∅]> h)).
  set (E := fresh (dom h2)).
  assert (HE2 : h2 !! E = None) by (apply not_elem_of_dom, is_fresh).
  assert (HEl : E ≠ l)
    by (intros Heq; rewrite Heq in HE2; unfold h2 in HE2;
        by rewrite lookup_insert_eq in HE2).
  assert (HEd : E ≠ d)
    by (intros Heq; rewrite Heq in HE2; unfold h2 in HE2;
        by rewrite lookup_insert_ne, lookup_insert_eq in HE2).
  assert (HE : h !! E = None)
    by (unfold h2 in HE2; by rewrite !lookup_insert_ne in HE2).
  exists E. eexists. split_and!; [ | exact HE | | ].
  - unfold module_body, bind, new_object. fold d.
    rewrite (set_spec _ _ ∅) by apply lookup_insert_eq.
    unfold defineProperty, bind.
    erewrite get_spec by apply lookup_insert_eq.
    rewrite lookup_insert_eq. simpl default.
    erewrite set_spec; [ | rewrite !lookup_insert_ne by done; exact H ].
    unfold ret.
    erewrite set_spec by apply lookup_insert_eq.
    erewrite get_spec by apply lookup_insert_eq.
    rewrite lookup_insert_eq. simpl default.
    unfold or_else. cbn [ToBoolean ToPropertyKey]. cbv iota beta.
    rewrite !insert_insert_eq. fold h2. fold E.
    erewrite set_spec;
      [ | rewrite lookup_insert_ne by done; unfold h2; apply lookup_insert_eq ].
    cbn [ToPropertyKey]. rewrite !insert_insert_eq.
    erewrite enum_body_spec;
      [ | rewrite lookup_insert_ne by done; apply lookup_insert_eq ].
    reflexivity.
  - rewrite lookup_insert_eq. reflexivity.
  - rewrite lookup_insert_ne by done. rewrite lookup_insert_eq.
    reflexivity.
Qed.
End ModuleLoad.

(* ===================================================================== *)
(** ** The severity enum *)
(* ===================================================================== *)

Section Severity.
Import TS IndexDts.
Import IndexJs (JNum, JStr).

(** C1: the severity enumeration is closed, its members have exactly the
    ordinals error = 0, warning = 1, information = 2 and hint = 3 (in both
    builds of the declarations and in the object index.js builds), a value
    has the enum type exactly when it is one of these four numbers, and
    going from a member name to its integer, back to the name and to the
    integer again gives the same ordinal. *)
Theorem severity_ordinals :
  (∀ s : LinterOffenseSeverity, In s members)
  ∧ NoDup (map ordinal members)
  ∧ map (λ s, (member_name s, ordinal s)) members
    = [("error", 0); ("warning", 1); ("information", 2); ("hint", 3)]
  ∧ Part000.LinterOffenseSeverity_members
    = map (λ s, (member_name s, ordinal s)) members
  ∧ (∀ z, has_type LinterOffenseSeverity_ty (VNum z)
          = bool_decide (z ∈ [0; 1; 2; 3]))
  ∧ (∀ s, IndexJs.LinterOffenseSeverity (JStr (member_name s))
          = Some (JNum (ordinal s)))
  ∧ (∀ s, IndexJs.there_and_back_again (JStr (member_name s))
          = Some (JNum (ordinal s))).
Proof.
  split_and!.
  - intros []; simpl; tauto.
  - by apply (bool_decide_unpack _).
  - reflexivity.
  - reflexivity.
  - intros z. reflexivity.
  - intros []; vm_compute; reflexivity.
  - intros []; vm_compute; reflexivity.
Qed.

(** C9: the object built by index.js maps both ways: indexing it by a
    member's integer value gives the member's name, indexing it by the name
    gives the integer, and name-to-ordinal followed by ordinal-to-name is
    the identity on the four names; the object has these eight properties
    and no other. *)
Theorem enum_object_two_way :
  (∀ s, IndexJs.LinterOffenseSeverity (JNum (ordinal s))
        = Some (JStr (member_name s)))
  ∧ (∀ s, IndexJs.there_and_back (JStr (member_name s)) = Some (JStr (member_name s)))
  ∧ (∀ s, IndexJs.there_and_back (JNum (ordinal s)) = Some (JNum (ordinal s)))
  ∧ IndexJs.LinterOffenseSeverity (JNum 0) = Some (JStr "error")
  ∧ IndexJs.LinterOffenseSeverity_keys
    = Some (list_to_set (map member_name members
                         ++ map (λ s, pretty (ordinal s)) members)%list).
Proof.
  split_and!.
  - intros []; vm_compute; reflexivity.
  - intros []; vm_compute; reflexivity.
  - intros []; vm_compute; reflexivity.
  - vm_compute; reflexivity.
  - vm_compute; reflexivity.
Qed.

End Severity.

(* ===================================================================== *)
(** ** The offense record across the two builds *)
(* ===================================================================== *)

Section OffenseAcrossBuilds.
Import TS.

Lemma has_fields_app (fs gs : list field) (o : gmap string value) :
  has_fields (fs ++ gs)%list o = has_fields fs o && has_fields gs o.
Proof. unfold has_fields. apply forallb_app. Qed.

(** C10: every property of [LinterOffense] in part_000 is declared in
    index.d.ts with the same type and the same optionality; the newer
    declaration is the older one followed by [inlineFix] and [meta], which
    the older one does not have; so nothing is removed or retyped, and every
    value of the newer type is a value of the older one. *)
Theorem offense_extends_part000 :
  (∀ f, In f Part000.LinterOffense_fields → In f IndexDts.LinterOffense_fields)
  ∧ (∀ k, In k (keyof Part000.LinterOffense_fields) →
          declared k IndexDts.LinterOffense_fields
          = declared k Part000.LinterOffense_fields)
  ∧ IndexDts.LinterOffense_fields
    = (Part000.LinterOffense_fields ++ IndexDts.added_offense_fields)%list
  ∧ keyof IndexDts.added_offense_fields = ["inlineFix"; "meta"]
  ∧ declared "inlineFix" Part000.LinterOffense_fields = None
  ∧ declared "meta" Part000.LinterOffense_fields = None
  ∧ (∀ v, has_type IndexDts.LinterOffense v = true →
          has_type Part000.LinterOffense v = true).
Proof.
  assert (Happ : IndexDts.LinterOffense_fields
                 = (Part000.LinterOffense_fields ++ IndexDts.added_offense_fields)%list)
    by reflexivity.
  split_and!.
  - intros f Hf. rewrite Happ. apply in_or_app. by left.
  - intros k Hk. simpl in Hk.
    repeat (destruct Hk as [<- | Hk]; [ reflexivity | ]). destruct Hk.
  - exact Happ.
  - reflexivity.
  - reflexivity.
  - reflexivity.
  - intros v. unfold IndexDts.LinterOffense, Part000.LinterOffense.
    rewrite !has_type_object, Happ. destruct v; try discriminate.
    rewrite has_fields_app. intros H. by apply andb_true_iff in H as [? _].
Qed.

Lemma offense_extends_part000_witness :
  In (req "lineStart" TNumber) IndexDts.LinterOffense_fields.
Proof.
  apply (proj1 offense_extends_part000). simpl. tauto.
Defined.

End OffenseAcrossBuilds.

(* ===================================================================== *)
(** ** The inline fix *)
(* ===================================================================== *)

Section InlineFix.
Import TS IndexDts.

Lemma has_type_pair_inv (v : value) :
  has_type (TTuple [TNumber; TNumber]) v = true →
  ∃ a b, v = VArr [VNum a; VNum b].
Proof.
  destruct v as [ | | | | | | items | | | ]; try discriminate. simpl.
  destruct items as [ | x [ | y [ | z rest ] ] ]; try discriminate.
  - by rewrite andb_false_r.
  - destruct x, y; try discriminate. eauto.
  - by rewrite !andb_false_r.
Qed.

Lemma has_type_position_inv (v : value) :
  has_type Position v = true →
  ∃ p line column, v = VObj p ∧ p !! "line" = Some (VNum line)
                   ∧ p !! "column" = Some (VNum column).
Proof.
  unfold Position. rewrite has_type_object.
  destruct v as [ | | | | | | | p | | ]; try discriminate. intros Hp.
  destruct (has_fields_required _ _ "line" TNumber Hp) as (l & Hl & Hlt);
    [ simpl; tauto | ].
  destruct (has_fields_required _ _ "column" TNumber Hp) as (c & Hc & Hct);
    [ simpl; tauto | ].
  apply has_type_number_inv in Hlt as [line ->].
  apply has_type_number_inv in Hct as [column ->].
  eauto 6.
Qed.

(** The union is not exclusive: an offense whose [inlineFix] carries
    [offset] together with [start] and [end] has the type
    [LinterOffense]. *)
Lemma inlineFix_both_shapes :
  has_type LinterOffense (VObj (Samples.offense_with Samples.fix_both)) = true
  ∧ Samples.offense_with Samples.fix_both !! "inlineFix" = Some Samples.fix_both
  ∧ Samples.fix_both ≠ VUndefined
  ∧ carries_offset Samples.fix_both = true
  ∧ carries_range Samples.fix_both = true
  ∧ exactly_one_shape Samples.fix_both = false.
Proof.
  split_and!; try (vm_compute; reflexivity). discriminate.
Qed.

(** C2, as the declaration has it: when [inlineFix] is present it is an
    object with a string [replacement] and with the properties of at least
    one of the two shapes, an [offset] pair of numbers or [start] and [end]
    positions; it is never neither. *)
Theorem inlineFix_some_shape (o : gmap string value) (fix_ : value) :
  has_type LinterOffense (VObj o) = true →
  o !! "inlineFix" = Some fix_ →
  fix_ ≠ VUndefined →
  ∃ m, fix_ = VObj m
    ∧ (∃ r, m !! "replacement" = Some (VStr r))
    ∧ ((∃ a b, m !! "offset" = Some (VArr [VNum a; VNum b]))
       ∨ (∃ s e sl sc el ec,
            m !! "start" = Some (VObj s) ∧ m !! "end" = Some (VObj e)
            ∧ s !! "line" = Some (VNum sl) ∧ s !! "column" = Some (VNum sc)
            ∧ e !! "line" = Some (VNum el) ∧ e !! "column" = Some (VNum ec)))
    ∧ carries_offset fix_ || carries_range fix_ = true.
Proof.
  unfold LinterOffense. rewrite has_type_object. intros Ho Hfix Hdef.
  assert (Ht : has_type InlineFix fix_ = true).
  { apply (has_fields_optional _ _ "inlineFix" _ _ Ho); [ | done | done ].
    simpl. tauto. }
  unfold InlineFix, InlineFixRange, InlineFixOffset in Ht.
  rewrite has_type_union, !has_type_object in Ht.
  destruct fix_ as [ | | | | | | | m | | ]; try discriminate.
  exists m. apply orb_true_iff in Ht as [Hr | Hf].
  - destruct (has_fields_required _ _ "replacement" TString Hr)
      as (r & Hrk & Hrt); [ simpl; tauto | ].
    destruct (has_fields_required _ _ "start" Position Hr)
      as (s & Hsk & Hst); [ simpl; tauto | ].
    destruct (has_fields_required _ _ "end" Position Hr)
      as (e & Hek & Het); [ simpl; tauto | ].
    apply has_type_string_inv in Hrt as [r' ->].
    apply has_type_position_inv in Hst as (sp & sl & sc & -> & Hsl & Hsc).
    apply has_type_position_inv in Het as (ep & el & ec & -> & Hel & Hec).
    split_and!; [ reflexivity | eauto | right; eauto 12 | ].
    unfold carries_range, has_property. rewrite Hsk, Hek.
    rewrite !bool_decide_eq_true_2 by eauto. apply orb_true_r.
  - destruct (has_fields_required _ _ "replacement" TString Hf)
      as (r & Hrk & Hrt); [ simpl; tauto | ].
    destruct (has_fields_required _ _ "offset" (TTuple [TNumber; TNumber]) Hf)
      as (p & Hpk & Hpt); [ simpl; tauto | ].
    apply has_type_string_inv in Hrt as [r' ->].
    apply has_type_pair_inv in Hpt as (a & b & ->).
    split_and!; [ reflexivity | eauto | left; eauto | ].
    unfold carries_offset, has_property. rewrite Hpk.
    rewrite bool_decide_eq_true_2 by eauto. reflexivity.
Qed.

Lemma inlineFix_some_shape_witness :
  ∃ m, Samples.fix_by_offset = VObj m
    ∧ (∃ r, m !! "replacement" = Some (VStr r))
    ∧ ((∃ a b, m !! "offset" = Some (VArr [VNum a; VNum b]))
       ∨ (∃ s e sl sc el ec,
            m !! "start" = Some (VObj s) ∧ m !! "end" = Some (VObj e)
            ∧ s !! "line" = Some (VNum sl) ∧ s !! "column" = Some (VNum sc)
            ∧ e !! "line" = Some (VNum el) ∧ e !! "column" = Some (VNum ec)))
    ∧ carries_offset Samples.fix_by_offset
      || carries_range Samples.fix_by_offset = true.
Proof.
  apply (inlineFix_some_shape (Samples.offense_with Samples.fix_by_offset)).
  - vm_compute. reflexivity.
  - vm_compute. reflexivity.
  - discriminate.
Defined.

(** A fix with neither [offset] nor [start] and [end] is refused. *)
Lemma inlineFix_neither_refused :
  has_type LinterOffense (VObj (Samples.offense_with Samples.fix_neither))
  = false.
Proof. vm_compute. reflexivity. Qed.

(** Each shape alone is accepted, and then exactly one shape is carried. *)
Lemma inlineFix_each_shape :
  has_type LinterOffense (VObj (Samples.offense_with Samples.fix_by_offset)) = true
  ∧ exactly_one_shape Samples.fix_by_offset = true
  ∧ has_type LinterOffense (VObj (Samples.offense_with Samples.fix_by_range)) = true
  ∧ exactly_one_shape Samples.fix_by_range = true
  ∧ has_type LinterOffense (VObj Samples.offense) = true.
Proof. split_and!; vm_compute; reflexivity. Qed.

End InlineFix.

(* ===================================================================== *)
(** ** The offense positions *)
(* ===================================================================== *)

Section Positions.
Import TS IndexDts.

(** The type asks for the four positions to be there and to be numbers. *)
Lemma offense_positions_numbers (o : gmap string value) (k : string) :
  has_type LinterOffense (VObj o) = true → In k position_keys →
  ∃ z, o !! k = Some (VNum z).
Proof.
  unfold LinterOffense. rewrite has_type_object. intros Ho Hk.
  destruct (has_fields_required _ _ k TNumber Ho) as (v & Hv & Ht).
  - simpl in Hk. simpl.
    repeat (destruct Hk as [<- | Hk]; [ tauto | ]). destruct Hk.
  - apply has_type_number_inv in Ht as [z ->]. eauto.
Qed.




End Positions.

(* ===================================================================== *)
(** ** The linter configuration *)
(* ===================================================================== *)

Section Config.
Import TS IndexDts.

Lemma has_type_strings_inv (v : value) :
  has_type (TArray TString) v = true →
  ∃ items, v = VArr items ∧ Forall (λ x, ∃ s, x = VStr s) items.
Proof.
  destruct v as [ | | | | | | items | | | ]; try discriminate. simpl.
  intros H. exists items. split; [ reflexivity | ].
  apply Forall_forall. intros x Hx. apply has_type_string_inv.
  rewrite forallb_forall in H. apply H. by apply list_elem_of_In.
Qed.

Lemma has_type_strings (l : list string) :
  has_type (TArray TString) (Samples.strings l) = true.
Proof.
  unfold Samples.strings. simpl. apply forallb_forall.
  intros x Hx. apply in_map_iff in Hx as (s & <- & _). reflexivity.
Qed.

(** As with every object type, properties under keys that the type does
    not declare are not looked at: a record that carries the known
    properties of [LinterConfigType], with properties added under other
    keys, is assignable to [LinterConfig]. *)
Lemma config_admits_extra_keys (o extra : gmap string value) :
  has_type LinterConfigType (VObj o) = true →
  (∀ k, In k (keyof LinterConfigType_fields) → extra !! k = None) →
  has_type LinterConfig (VObj (extra ∪ o)) = true.
Proof.
  unfold LinterConfig, LinterConfigType.
  rewrite has_type_inter, !has_type_object. intros Ho Hextra.
  assert (Hsame : has_fields LinterConfigType_fields (extra ∪ o) = true).
  { rewrite (has_fields_agree _ o); [ exact Ho | ].
    intros k Hk. apply lookup_union_r. by apply Hextra. }
  rewrite Hsame, andb_true_l.
  by apply has_fields_mapped_unknown.
Qed.

Lemma config_admits_extra_keys_witness :
  has_type LinterConfig (VObj (Samples.extra_keys ∪ Samples.config)) = true.
Proof.
  apply (config_admits_extra_keys Samples.config Samples.extra_keys).
  - vm_compute. reflexivity.
  - intros k Hk. simpl in Hk.
    repeat (destruct Hk as [<- | Hk]; [ vm_compute; reflexivity | ]).
    destruct Hk.
Defined.

(** The added keys are really there. *)
Lemma config_extra_keys_present :
  (Samples.extra_keys ∪ Samples.config) !! "timeout" = Some (VNum 30)
  ∧ ¬ In "timeout" (keyof LinterConfigType_fields)
  ∧ ¬ In "x-vendor" (keyof LinterConfigType_fields).
Proof.
  split_and!; [ vm_compute; reflexivity | | ];
    simpl; intros H; repeat (destruct H as [H | H]; [ discriminate | ]);
    destruct H.
Qed.

(** An object literal may only name the keys its type knows of. *)
Lemma literal_keys_known (t : ty) (known : list string)
      (o : gmap string value) (k : string) :
  known_keys t = Some known →
  literal_has_type t (VObj o) = true → is_Some (o !! k) → k ∈ known.
Proof.
  intros Hknown H [v Hv]. unfold literal_has_type in H.
  apply andb_true_iff in H as [_ H]. apply bool_decide_eq_true in H.
  unfold excess_keys in H. rewrite Hknown in H.
  destruct (decide (k ∈ known)) as [Hin | Hout]; [ exact Hin | exfalso ].
  assert (Hk : k ∈ filter (λ k, k ∉ known) (map fst (map_to_list o))).
  { apply list_elem_of_filter. split; [ exact Hout | ].
    apply list_elem_of_In, in_map_iff. exists (k, v). split; [ reflexivity | ].
    by apply list_elem_of_In, elem_of_map_to_list. }
  rewrite H in Hk. by apply elem_of_nil in Hk.
Qed.

(** [LinterConfig] has no index signature: the only keys it knows of are
    the ten declared ones.  The sample configuration with the keys [timeout]
    and [x-vendor] added is refused as an object literal, [timeout] not being
    a known property, while the sample itself is accepted.  With an index
    signature in the place of the mapped member the same literal would be
    accepted. *)
Lemma config_literal_extra_key_refused :
  known_keys LinterConfig
  = Some (keyof LinterConfigType_fields ++ keyof LinterConfigType_fields)%list
  ∧ ¬ In "timeout" (keyof LinterConfigType_fields)
  ∧ (Samples.extra_keys ∪ Samples.config) !! "timeout" = Some (VNum 30)
  ∧ excess_keys LinterConfig (Samples.extra_keys ∪ Samples.config)
    = ["timeout"; "x-vendor"]
  ∧ literal_has_type LinterConfig (VObj (Samples.extra_keys ∪ Samples.config))
    = false
  ∧ literal_has_type LinterConfig (VObj Samples.config) = true
  ∧ literal_has_type (TInter LinterConfigType (TIndex TUnknown))
      (VObj (Samples.extra_keys ∪ Samples.config)) = true.
Proof.
  split_and!; try (vm_compute; reflexivity).
  simpl. intros H; repeat (destruct H as [H | H]; [ discriminate | ]).
  destruct H.
Qed.

(** C4, as the declaration has it: [LinterConfig] is [LinterConfigType]
    intersected with a mapped type over the same ten keys.  The mapped type
    declares those keys and no other, so the type knows of no key outside the
    declared set and an object literal that names one is refused.  A record
    with properties under other keys is assignable to [LinterConfig] by
    structural typing alone, exactly as it is to [LinterConfigType]. *)
Theorem config_keys_closed :
  keyof (mapped_keyof LinterConfigType_fields TUnknown)
  = keyof LinterConfigType_fields
  ∧ keyof LinterConfigType_fields
    = ["name"; "command"; "configFiles"; "enabled"; "languages";
       "capabilities"; "args"; "url"; "when"; "importPath"]
  ∧ (∀ (o : gmap string value) k,
       literal_has_type LinterConfig (VObj o) = true →
       is_Some (o !! k) → In k (keyof LinterConfigType_fields))
  ∧ (∀ o extra : gmap string value,
       has_type LinterConfigType (VObj o) = true →
       (∀ k, In k (keyof LinterConfigType_fields) → extra !! k = None) →
       has_type LinterConfigType (VObj (extra ∪ o)) = true
       ∧ has_type LinterConfig (VObj (extra ∪ o)) = true)
  ∧ (∀ v, has_type LinterConfig v = has_type LinterConfigType v).
Proof.
  split_and!.
  - apply keyof_mapped_keyof.
  - reflexivity.
  - intros o k Hlit Hk.
    pose proof (literal_keys_known LinterConfig
                  (keyof LinterConfigType_fields
                   ++ keyof LinterConfigType_fields)%list
                  o k eq_refl Hlit Hk) as Hin.
    apply list_elem_of_In. apply elem_of_app in Hin. tauto.
  - intros o extra Ho Hextra. split.
    + revert Ho. unfold LinterConfigType. rewrite !has_type_object.
      intros Ho. rewrite (has_fields_agree _ o); [ exact Ho | ].
      intros k Hk. apply lookup_union_r. by apply Hextra.
    + by apply config_admits_extra_keys.
  - intros v. unfold LinterConfig, LinterConfigType.
    rewrite has_type_inter, !has_type_object.
    destruct v; try reflexivity.
    destruct (has_fields LinterConfigType_fields props) eqn:H;
      [ | reflexivity ].
    by rewrite has_fields_mapped_unknown.
Qed.

Lemma config_keys_closed_witness :
  In "capabilities" (keyof LinterConfigType_fields).
Proof.
  apply (proj1 (proj2 (proj2 config_keys_closed)) Samples.config).
  - vm_compute. reflexivity.
  - vm_compute. eauto.
Defined.

(** The capabilities are not a closed set for the type: a configuration
    whose [capabilities] holds a name outside the documented six is a
    [LinterConfig]. *)
Lemma config_undocumented_capability :
  has_type LinterConfig (VObj (Samples.config_with ["format-on-save"])) = true
  ∧ Samples.config_with ["format-on-save"] !! "capabilities"
    = Some (VArr [VStr "format-on-save"])
  ∧ ¬ In "format-on-save" documented_capabilities.
Proof.
  split_and!; [ vm_compute; reflexivity | vm_compute; reflexivity | ].
  simpl. intros H; repeat (destruct H as [H | H]; [ discriminate | ]).
  destruct H.
Qed.

(** C6, as the declaration has it: the [capabilities] of a [LinterConfig]
    are an array of strings, and any array of strings may stand there, the
    six documented names among them. *)
Theorem config_capabilities_strings (o : gmap string value) :
  has_type LinterConfig (VObj o) = true →
  (∃ items, o !! "capabilities" = Some (VArr items)
            ∧ Forall (λ x, ∃ s, x = VStr s) items)
  ∧ (∀ names : list string,
       has_type LinterConfig
         (VObj (<["capabilities" := Samples.strings names]> o)) = true)
  ∧ has_type LinterConfig
      (VObj (<["capabilities" := Samples.strings documented_capabilities]> o))
    = true.
Proof.
  intros Ho.
  assert (Hany : ∀ names : list string,
             has_type LinterConfig
               (VObj (<["capabilities" := Samples.strings names]> o)) = true).
  { intros names. revert Ho. unfold LinterConfig, LinterConfigType.
    rewrite !has_type_inter, !has_type_object.
    intros H. apply andb_true_iff in H as [H _].
    assert (H' : has_fields LinterConfigType_fields
                   (<["capabilities" := Samples.strings names]> o) = true).
    { unfold LinterConfigType_fields. rewrite !has_fields_cons in *.
      unfold check_property in *. cbn [field_name field_optional field_type
                                       req opt fst snd] in *.
      rewrite lookup_insert_eq.
      rewrite !lookup_insert_ne by discriminate.
      rewrite has_type_strings.
      repeat (apply andb_true_iff in H as [? H]).
      repeat (apply andb_true_iff; split); try assumption; reflexivity. }
    rewrite H', andb_true_l. by apply has_fields_mapped_unknown. }
  split_and!; [ | exact Hany | apply Hany ].
  revert Ho. unfold LinterConfig, LinterConfigType.
  rewrite has_type_inter, !has_type_object. intros H. apply andb_true_iff in H as [H _].
  destruct (has_fields_required _ _ "capabilities" (TArray TString) H)
    as (v & Hv & Ht); [ simpl; tauto | ].
  apply has_type_strings_inv in Ht as (items & -> & Hitems). eauto.
Qed.

Lemma config_capabilities_strings_witness :
  ∃ items, Samples.config !! "capabilities" = Some (VArr items)
           ∧ Forall (λ x, ∃ s, x = VStr s) items.
Proof.
  apply (config_capabilities_strings Samples.config).
  vm_compute. reflexivity.
Defined.

End Config.

(* ===================================================================== *)
(** ** The adapter contract *)
(* ===================================================================== *)

Section Adapter.
Import TS.





(** C7: [getOffenses] is the one mandatory operation of [Linter] and the
    other four are optional, in both builds of the declarations: a record
    that supplies a [getOffenses] function and nothing else is a [Linter],
    and every [Linter] has a [getOffenses] function. *)
Theorem getOffenses_only_mandatory :
  required_keys IndexDts.Linter_fields = ["getOffenses"]
  ∧ optional_keys IndexDts.Linter_fields
    = ["getIgnoreEolPragma"; "getIgnoreLinePragma"; "getIgnoreFilePragma";
       "parseFixOutput"]
  ∧ required_keys Part000.Linter_fields = required_keys IndexDts.Linter_fields
  ∧ optional_keys Part000.Linter_fields = optional_keys IndexDts.Linter_fields
  ∧ (∀ f, has_type IndexDts.LinterGetOffensesFunction f = true →
          has_type IndexDts.Linter (VObj {[ "getOffenses" := f ]}) = true)
  ∧ (∀ o : gmap string value,
       has_type IndexDts.Linter (VObj o) = true →
       ∃ f, o !! "getOffenses" = Some f
            ∧ has_type IndexDts.LinterGetOffensesFunction f = true)
  ∧ has_type IndexDts.Linter (VObj ∅) = false.
Proof.
  split_and!; try reflexivity.
  - intros f Hf. unfold IndexDts.Linter. rewrite has_type_object.
    unfold IndexDts.Linter_fields. rewrite !has_fields_cons.
    unfold check_property.
    cbn [field_name field_optional field_type req opt fst snd].
    rewrite lookup_singleton_eq.
    rewrite !lookup_singleton_ne by discriminate.
    rewrite Hf. reflexivity.
  - intros o Ho. unfold IndexDts.Linter in Ho. rewrite has_type_object in Ho.
    apply (has_fields_required _ _ "getOffenses" _ Ho). simpl. tauto.
Qed.

Lemma getOffenses_only_mandatory_witness :
  has_type IndexDts.Linter (VObj Samples.adapter) = true.
Proof.
  apply (proj1 (proj2 (proj2 (proj2 (proj2 getOffenses_only_mandatory))))
           Samples.getOffenses).
  vm_compute. reflexivity.
Defined.

End Adapter.

(* ===================================================================== *)
(** ** index.js on any heap *)
(* ===================================================================== *)

Section ModuleLoadAnywhere.
Import IndexJs.
Local Open Scope js_scope.

(** The heap after loading, written out: a descriptor object [d] and the
    enum object [E] are new, and [exports] has two properties set. *)
Lemma module_body_run (h : heap) (l : loc) (props : object) :
  h !! l = Some props →
  ∃ d E,
    h !! d = None ∧ h !! E = None ∧ d ≠ l ∧ E ≠ l ∧ E ≠ d
    ∧ module_body (JRef l) h
      = Some (JRef E,
              <[E := with_enum_entries ∅]>
                (<[l := <["LinterOffenseSeverity" := JRef E]>
                          (<["__esModule" := JBool true]> props)]>
                   (<[d := <["value" := JBool true]> ∅]> h))).
Proof.
  intros H.
  set (d := fresh (dom h)).
  set (h2 := <[l := <["LinterOffenseSeverity" := JUndefined]>
                      (<["__esModule" := JBool true]> props)]>
               (<[d := <["value" := JBool true]> ∅]> h)).
  set (E := fresh (dom h2)).
  assert (Hd : h !! d = None) by (apply not_elem_of_dom, is_fresh).
  assert (Hdl : d ≠ l) by congruence.
  assert (HE2 : h2 !! E = None) by (apply not_elem_of_dom, is_fresh).
  assert (HEl : E ≠ l)
    by (intros Heq; rewrite Heq in HE2; unfold h2 in HE2;
        by rewrite lookup_insert_eq in HE2).
  assert (HEd : E ≠ d)
    by (intros Heq; rewrite Heq in HE2; unfold h2 in HE2;
        by rewrite lookup_insert_ne, lookup_insert_eq in HE2).
  assert (HE : h !! E = None)
    by (unfold h2 in HE2; by rewrite !lookup_insert_ne in HE2).
  exists d, E. split_and!; try done.
  unfold module_body, bind, new_object. fold d.
  rewrite (set_spec _ _ ∅) by apply lookup_insert_eq.
  unfold defineProperty, bind.
  erewrite get_spec by apply lookup_insert_eq.
  rewrite lookup_insert_eq. simpl default.
  erewrite set_spec; [ | rewrite !lookup_insert_ne by done; exact H ].
  unfold ret.
  erewrite set_spec by apply lookup_insert_eq.
  erewrite get_spec by apply lookup_insert_eq.
  rewrite lookup_insert_eq. simpl default.
  unfold or_else. cbn [ToBoolean ToPropertyKey]. cbv iota beta.
  rewrite !insert_insert_eq. fold h2. fold E.
  erewrite set_spec;
    [ | rewrite lookup_insert_ne by done; unfold h2; apply lookup_insert_eq ].
  cbn [ToPropertyKey]. rewrite !insert_insert_eq.
  erewrite enum_body_spec;
    [ | rewrite lookup_insert_ne by done; apply lookup_insert_eq ].
  rewrite (insert_insert_ne _ l E) by done.
  rewrite insert_insert_eq.
  unfold h2. rewrite insert_insert_eq.
  reflexivity.
Qed.

(** Loading index.js does not throw. *)
Lemma load_succeeds : is_Some IndexJs.load.
Proof.
  destruct (module_body_run initial_heap exports_loc ∅)
    as (d & E & _ & _ & _ & _ & _ & Hload); [ reflexivity | ].
  unfold load. rewrite Hload. eauto.
Qed.

(** The variable [LinterOffenseSeverity] and the exported property hold
    the same reference. *)
Lemma exported_is_local :
  ∃ E h, IndexJs.load = Some (E, h) ∧
         IndexJs.get (IndexJs.JRef IndexJs.exports_loc)
                     (JStr "LinterOffenseSeverity") h = Some (E, h).
Proof.
  destruct (module_body_run initial_heap exports_loc ∅)
    as (d & E & _ & _ & _ & HEl & _ & Hload); [ reflexivity | ].
  eexists _, _. split; [ exact Hload | ].
  erewrite get_spec;
    [ | rewrite lookup_insert_ne by done; apply lookup_insert_eq ].
  cbn [ToPropertyKey]. by rewrite lookup_insert_eq.
Qed.

(** Lookups in the object the function body has run on. *)
Lemma with_enum_entries_lookup (props : object) (k : string) :
  with_enum_entries props !! k
  = match with_enum_entries ∅ !! k with
    | Some v => Some v
    | None => props !! k
    end.
Proof.
  unfold with_enum_entries. cbn [foldl enum_entries fst snd].
  rewrite !lookup_insert. repeat case_decide; reflexivity.
Qed.

Lemma with_enum_entries_keys (k : string) :
  is_Some (with_enum_entries ∅ !! k) ↔ k ∈ enum_keys.
Proof.
  unfold with_enum_entries, enum_keys.
  cbn [foldl enum_entries fst snd map].
  rewrite !lookup_insert_is_Some', lookup_empty, !elem_of_cons, elem_of_nil.
  rewrite is_Some_alt. intuition.
Qed.

Lemma with_enum_entries_idemp (props : object) :
  with_enum_entries (with_enum_entries props) = with_enum_entries props.
Proof.
  apply map_eq. intros k. rewrite (with_enum_entries_lookup (with_enum_entries _)).
  rewrite (with_enum_entries_lookup props).
  by destruct (with_enum_entries ∅ !! k).
Qed.

(** The function body, run on an object that already has properties (an
    enum that is being reopened): it succeeds, rewrites the eight entries,
    keeps every other property of the object and every other object, and
    running it again changes nothing. *)
Theorem enum_body_reopens (h : heap) (l : loc) (props : object) :
  h !! l = Some props →
  ∃ h', enum_body (JRef l) h = Some (tt, h')
    ∧ h' !! l = Some (with_enum_entries props)
    ∧ (∀ k, k ∉ enum_keys → with_enum_entries props !! k = props !! k)
    ∧ (∀ k, k ∈ enum_keys →
            with_enum_entries props !! k = with_enum_entries ∅ !! k)
    ∧ (∀ l', l' ≠ l → h' !! l' = h !! l')
    ∧ enum_body (JRef l) h' = Some (tt, h').
Proof.
  intros H. exists (<[l := with_enum_entries props]> h). split_and!.
  - by rewrite (enum_body_spec _ _ _ H).
  - apply lookup_insert_eq.
  - intros k Hk. rewrite with_enum_entries_lookup.
    destruct (with_enum_entries ∅ !! k) eqn:Hl; [ | reflexivity ].
    destruct Hk. apply with_enum_entries_keys. eauto.
  - intros k Hk. rewrite with_enum_entries_lookup.
    apply with_enum_entries_keys in Hk as [v Hv]. by rewrite Hv.
  - intros l' Hl. by rewrite lookup_insert_ne.
  - rewrite (enum_body_spec _ _ (with_enum_entries props))
      by apply lookup_insert_eq.
    rewrite insert_insert_eq.
    change (Some (tt, <[l := with_enum_entries (with_enum_entries props)]> h)
            = Some (tt, <[l := with_enum_entries props]> h)).
    by rewrite with_enum_entries_idemp.
Qed.

Lemma enum_body_reopens_witness :
  ∃ h', enum_body (JRef stale_loc) busy_heap = Some (tt, h')
    ∧ h' !! stale_loc = Some (with_enum_entries stale_enum)
    ∧ (∀ k, k ∉ enum_keys → with_enum_entries stale_enum !! k = stale_enum !! k)
    ∧ (∀ k, k ∈ enum_keys →
            with_enum_entries stale_enum !! k = with_enum_entries ∅ !! k)
    ∧ (∀ l', l' ≠ stale_loc → h' !! l' = busy_heap !! l')
    ∧ enum_body (JRef stale_loc) h' = Some (tt, h').
Proof.
  apply (enum_body_reopens busy_heap stale_loc stale_enum).
  vm_compute. reflexivity.
Defined.

(** On the stale object the entry [error] is overwritten and [custom] is
    kept. *)
Lemma enum_body_reopens_stale :
  stale_enum !! "error" = Some (JNum 9)
  ∧ with_enum_entries stale_enum !! "error" = Some (JNum 0)
  ∧ with_enum_entries stale_enum !! "0" = Some (JStr "error")
  ∧ with_enum_entries stale_enum !! "custom" = Some (JStr "kept").
Proof. split_and!; vm_compute; reflexivity. Qed.

Lemma module_body_spec_witness :
  ∃ E h', module_body (JRef exports_loc) busy_heap = Some (JRef E, h')
    ∧ busy_heap !! E = None
    ∧ h' !! E = Some (list_to_map
         [("error", JNum 0); ("0", JStr "error");
          ("warning", JNum 1); ("1", JStr "warning");
          ("information", JNum 2); ("2", JStr "information");
          ("hint", JNum 3); ("3", JStr "hint")])
    ∧ h' !! exports_loc = Some (<["LinterOffenseSeverity" := JRef E]>
                                  (<["__esModule" := JBool true]> busy_exports)).
Proof.
  apply (module_body_spec busy_heap exports_loc busy_exports).
  vm_compute. reflexivity.
Defined.

(** Loading touches nothing but [exports] and what it allocates: every
    other object of the heap is as it was (the object an earlier
    [exports.LinterOffenseSeverity] referred to included), and [exports]
    keeps its other properties. *)
Theorem load_leaves_heap_alone (h h' : heap) (l : loc) (props : object)
        (v : jsval) :
  h !! l = Some props →
  module_body (JRef l) h = Some (v, h') →
  (∀ l' o, l' ≠ l → h !! l' = Some o → h' !! l' = Some o)
  ∧ (∃ props', h' !! l = Some props'
       ∧ ∀ k, k ≠ "__esModule" → k ≠ "LinterOffenseSeverity" →
              props' !! k = props !! k).
Proof.
  intros H Hrun.
  destruct (module_body_run h l props H)
    as (d & E & Hd & HE & Hdl & HEl & HEd & Heq).
  rewrite Heq in Hrun. injection Hrun as <- <-.
  split.
  - intros l' o Hl Ho.
    rewrite !lookup_insert_ne; [ done | congruence | done | congruence ].
  - eexists. split.
    + rewrite lookup_insert_ne by done. apply lookup_insert_eq.
    + intros k Hk1 Hk2. by rewrite !lookup_insert_ne.
Qed.

Lemma load_leaves_heap_alone_witness :
  ∃ v h', module_body (JRef exports_loc) busy_heap = Some (v, h')
    ∧ h' !! stale_loc = Some stale_enum
    ∧ h' !! other_loc = Some other_object
    ∧ (∃ props', h' !! exports_loc = Some props'
                 ∧ props' !! "version" = Some (JStr "1.0")).
Proof.
  destruct (module_body_run busy_heap exports_loc busy_exports)
    as (d & E & _ & _ & _ & _ & _ & Hrun); [ vm_compute; reflexivity | ].
  eexists _, _. split; [ exact Hrun | ].
  destruct (load_leaves_heap_alone busy_heap _ exports_loc busy_exports _
              ltac:(vm_compute; reflexivity) Hrun)
    as (Hothers & props' & Hprops & Hkept).
  split_and!.
  - apply Hothers; [ discriminate | vm_compute; reflexivity ].
  - apply Hothers; [ discriminate | vm_compute; reflexivity ].
  - exists props'. split; [ exact Hprops | ].
    rewrite Hkept by discriminate. vm_compute. reflexivity.
Defined.

(** [exports] has to be an object: with a primitive in its place the first
    statement throws and nothing is exported. *)
Theorem load_needs_exports_object (exports : jsval) (h : heap) :
  (∀ l, exports ≠ JRef l) → module_body exports h = None.
Proof.
  intros Hprim. unfold module_body, bind, new_object.
  rewrite (set_spec _ _ ∅) by apply lookup_insert_eq.
  unfold defineProperty, bind.
  erewrite get_spec by apply lookup_insert_eq.
  destruct exports; try reflexivity. by destruct (Hprim l).
Qed.

Lemma load_needs_exports_object_witness :
  module_body JUndefined initial_heap = None.
Proof. apply load_needs_exports_object. intros l. discriminate. Defined.

(** Loading again does not reuse the enum object of the first load: the
    export is reset before the [||] is evaluated, so a second object is
    allocated; both hold the eight entries, and [exports] ends up with the
    second one. *)
Theorem load_twice_fresh_enum (h : heap) (l : loc) (props : object) :
  h !! l = Some props →
  ∃ E1 E2 h', load_twice (JRef l) h = Some ((JRef E1, JRef E2), h')
    ∧ E1 ≠ E2
    ∧ h' !! E1 = Some (with_enum_entries ∅)
    ∧ h' !! E2 = Some (with_enum_entries ∅)
    ∧ h' !! l = Some (<["LinterOffenseSeverity" := JRef E2]>
                        (<["__esModule" := JBool true]> props)).
Proof.
  intros H.
  destruct (module_body_run h l props H)
    as (d1 & E1 & Hd1 & HE1 & Hdl1 & HEl1 & HEd1 & Heq1).
  set (props1 := <["LinterOffenseSeverity" := JRef E1]>
                   (<["__esModule" := JBool true]> props)) in *.
  set (h1 := <[E1 := with_enum_entries ∅]> (<[l := props1]> _)) in *.
  assert (H1 : h1 !! l = Some props1)
    by (unfold h1; rewrite lookup_insert_ne by done; apply lookup_insert_eq).
  assert (H1E : h1 !! E1 = Some (with_enum_entries ∅))
    by (unfold h1; apply lookup_insert_eq).
  destruct (module_body_run h1 l props1 H1)
    as (d2 & E2 & Hd2 & HE2 & Hdl2 & HEl2 & HEd2 & Heq2).
  exists E1, E2. eexists. split_and!.
  - unfold load_twice, bind. rewrite Heq1, Heq2. reflexivity.
  - intros Heq. rewrite Heq in H1E. congruence.
  - assert (E1 ≠ E2) by (intros Heq; rewrite Heq in H1E; congruence).
    assert (E1 ≠ d2) by (intros Heq; rewrite Heq in H1E; congruence).
    rewrite !lookup_insert_ne by done. exact H1E.
  - apply lookup_insert_eq.
  - rewrite lookup_insert_ne by done. rewrite lookup_insert_eq. f_equal.
    unfold props1. apply map_eq. intros k.
    rewrite !lookup_insert. repeat case_decide; congruence.
Qed.

Lemma load_twice_fresh_enum_witness :
  ∃ E1 E2 h', load_twice (JRef exports_loc) initial_heap
              = Some ((JRef E1, JRef E2), h')
    ∧ E1 ≠ E2
    ∧ h' !! E1 = Some (with_enum_entries ∅)
    ∧ h' !! E2 = Some (with_enum_entries ∅)
    ∧ h' !! exports_loc = Some (<["LinterOffenseSeverity" := JRef E2]>
                                  (<["__esModule" := JBool true]> ∅)).
Proof.
  apply (load_twice_fresh_enum initial_heap exports_loc ∅).
  vm_compute. reflexivity.
Defined.

End ModuleLoadAnywhere.

(* ===================================================================== *)
(** ** The declarations beyond the offense record *)
(* ===================================================================== *)

Section Declarations.
Import TS.

(** A required property that is missing makes the object ill-typed. *)
Lemma has_fields_present (fs : list field) (o : gmap string value) (k : string) :
  has_fields fs o = true → In k (required_keys fs) → is_Some (o !! k).
Proof.
  unfold required_keys. intros Hall Hk.
  apply in_map_iff in Hk as (f & <- & Hf).
  apply list_elem_of_In, list_elem_of_filter in Hf as [Hreq Hf].
  apply list_elem_of_In in Hf.
  unfold has_fields in Hall. rewrite forallb_forall in Hall.
  specialize (Hall _ Hf). unfold check_property in Hall.
  rewrite Hreq in Hall. destruct (o !! field_name f); [ eauto | discriminate ].
Qed.

(** A property that is not required may be removed. *)
Lemma has_fields_delete (fs : list field) (o : gmap string value) (k : string) :
  ¬ In k (required_keys fs) → has_fields fs o = true →
  has_fields fs (delete k o) = true.
Proof.
  unfold has_fields. rewrite !forallb_forall. intros Hk Hall f Hf.
  specialize (Hall _ Hf). unfold check_property in *.
  destruct (decide (field_name f = k)) as [<- | Hne].
  - rewrite lookup_delete_eq.
    destruct (field_optional f) eqn:Hopt; [ reflexivity | ].
    destruct Hk. unfold required_keys. apply in_map_iff. exists f.
    split; [ reflexivity | ].
    apply list_elem_of_In, list_elem_of_filter. split; [ exact Hopt | ].
    by apply list_elem_of_In.
  - by rewrite lookup_delete_ne.
Qed.

(** Setting a property to a value of its declared type keeps the object
    well-typed, provided the property is declared once. *)
Lemma has_fields_insert (fs : list field) (o : gmap string value)
      (k : string) (v : value) :
  (∀ f, In f fs → field_name f = k → has_type (field_type f) v = true) →
  has_fields fs o = true → has_fields fs (<[k := v]> o) = true.
Proof.
  unfold has_fields. rewrite !forallb_forall. intros Hk Hall f Hf.
  specialize (Hall _ Hf). unfold check_property in *.
  destruct (decide (field_name f = k)) as [Heq | Hne].
  - rewrite <- Heq at 1. rewrite lookup_insert_eq.
    rewrite (Hk f Hf Heq). apply orb_true_r.
  - by rewrite lookup_insert_ne.
Qed.

Lemma has_type_mapped_inter (fs : list field) (v : value) :
  has_type (TInter (TObject fs) (TObject (mapped_keyof fs TUnknown))) v
  = has_type (TObject fs) v.
Proof.
  rewrite has_type_inter, !has_type_object.
  destruct v; try reflexivity.
  destruct (has_fields fs props) eqn:H; [ | reflexivity ].
  by rewrite has_fields_mapped_unknown.
Qed.

Lemma LinterConfig_fields (v : value) :
  has_type IndexDts.LinterConfig v
  = match v with
    | VObj o => has_fields IndexDts.LinterConfigType_fields o
    | _ => false
    end.
Proof.
  unfold IndexDts.LinterConfig, IndexDts.LinterConfigType.
  by rewrite has_type_mapped_inter, has_type_object.
Qed.

Lemma LinterConfig_fields_part000 (v : value) :
  has_type Part000.LinterConfig v
  = match v with
    | VObj o => has_fields Part000.LinterConfigType_fields o
    | _ => false
    end.
Proof.
  unfold Part000.LinterConfig, Part000.LinterConfigType.
  by rewrite has_type_mapped_inter, has_type_object.
Qed.

(** The mapped member of [LinterConfig] changes nothing: in both builds a
    value is a [LinterConfig] exactly when it is a [LinterConfigType]. *)
Theorem config_mapped_member_adds_nothing (v : value) :
  has_type IndexDts.LinterConfig v = has_type IndexDts.LinterConfigType v
  ∧ has_type Part000.LinterConfig v = has_type Part000.LinterConfigType v.
Proof. split; apply has_type_mapped_inter. Qed.

(** A configuration that lacks one of [name], [command], [configFiles],
    [enabled], [languages], [capabilities], [url] or [when] is refused. *)
Theorem config_missing_required_key (o : gmap string value) (k : string) :
  In k ["name"; "command"; "configFiles"; "enabled"; "languages";
        "capabilities"; "url"; "when"] →
  o !! k = None →
  has_type IndexDts.LinterConfig (VObj o) = false
  ∧ has_type Part000.LinterConfig (VObj o) = false.
Proof.
  intros Hk Hnone.
  rewrite LinterConfig_fields, LinterConfig_fields_part000.
  split.
  - destruct (has_fields IndexDts.LinterConfigType_fields o) eqn:H;
      [ | reflexivity ].
    destruct (has_fields_present _ _ k H) as [v Hv]; [ exact Hk | congruence ].
  - destruct (has_fields Part000.LinterConfigType_fields o) eqn:H;
      [ | reflexivity ].
    destruct (has_fields_present _ _ k H) as [v Hv]; [ exact Hk | congruence ].
Qed.

Lemma config_missing_required_key_witness :
  has_type IndexDts.LinterConfig (VObj (delete "when" Samples.config)) = false
  ∧ has_type Part000.LinterConfig (VObj (delete "when" Samples.config)) = false.
Proof.
  apply (config_missing_required_key (delete "when" Samples.config) "when").
  - simpl. tauto.
  - vm_compute. reflexivity.
Defined.

(** The optional properties may be left out: removing [docsUrl],
    [inlineFix] and [meta] from an offense, or [args] and [importPath] from a
    configuration, keeps the record well-typed. *)
Theorem optional_properties_may_be_dropped :
  (∀ o : gmap string value,
     has_type IndexDts.LinterOffense (VObj o) = true →
     has_type IndexDts.LinterOffense
       (VObj (delete "docsUrl" (delete "inlineFix" (delete "meta" o)))) = true)
  ∧ (∀ o : gmap string value,
       has_type IndexDts.LinterConfig (VObj o) = true →
       has_type IndexDts.LinterConfig
         (VObj (delete "args" (delete "importPath" o))) = true).
Proof.
  split; intros o.
  - unfold IndexDts.LinterOffense. rewrite !has_type_object. intros H.
    repeat (apply has_fields_delete;
            [ simpl; intros Hk;
              repeat (destruct Hk as [Hk | Hk]; [ discriminate | ]);
              destruct Hk | ]).
    exact H.
  - rewrite !LinterConfig_fields. intros H.
    repeat (apply has_fields_delete;
            [ simpl; intros Hk;
              repeat (destruct Hk as [Hk | Hk]; [ discriminate | ]);
              destruct Hk | ]).
    exact H.
Qed.

Lemma optional_properties_may_be_dropped_witness :
  has_type IndexDts.LinterOffense
    (VObj (delete "docsUrl" (delete "inlineFix" (delete "meta"
             (Samples.offense_with Samples.fix_by_range))))) = true.
Proof.
  apply (proj1 optional_properties_may_be_dropped).
  vm_compute. reflexivity.
Defined.

(** [meta] is opaque: whatever value is stored under it, a well-typed
    offense stays well-typed, in both builds. *)
Theorem offense_meta_any_value (o : gmap string value) (v : value) :
  (has_type IndexDts.LinterOffense (VObj o) = true →
   has_type IndexDts.LinterOffense (VObj (<["meta" := v]> o)) = true)
  ∧ (has_type Part000.LinterOffense (VObj o) = true →
     has_type Part000.LinterOffense (VObj (<["meta" := v]> o)) = true).
Proof.
  unfold IndexDts.LinterOffense, Part000.LinterOffense.
  rewrite !has_type_object.
  split; apply has_fields_insert; intros f Hf Hname; simpl in Hf;
    repeat (destruct Hf as [<- | Hf]; [ try discriminate; reflexivity | ]);
    destruct Hf.
Qed.

Lemma offense_meta_any_value_witness :
  has_type IndexDts.LinterOffense
    (VObj (<["meta" := VFun TString TString]> Samples.offense)) = true.
Proof.
  apply (proj1 (offense_meta_any_value Samples.offense (VFun TString TString))).
  vm_compute. reflexivity.
Defined.

(** Fewer declared properties ask less of the object. *)
Lemma has_fields_incl (fs gs : list field) (o : gmap string value) :
  (∀ f, In f gs → In f fs) → has_fields fs o = true → has_fields gs o = true.
Proof.
  unfold has_fields. rewrite !forallb_forall. intros Hincl Hall f Hf.
  apply Hall, Hincl, Hf.
Qed.

(** What index.d.ts hands to an operation is acceptable to an adapter
    written against part_000: for each of the five operations, a value of
    the newer parameter type has the older parameter type.  The newer types
    only add [document] and [uri]. *)
Theorem params_accepted_by_part000 (k : string) (p_new p_old : ty) (v : value) :
  In k IndexDts.operations →
  param_type IndexDts.Linter_fields k = Some p_new →
  param_type Part000.Linter_fields k = Some p_old →
  has_type p_new v = true → has_type p_old v = true.
Proof.
  intros Hk Hnew Hold. simpl in Hk.
  destruct Hk as [<- | [<- | [<- | [<- | [<- | []]]]]];
    vm_compute in Hnew, Hold; injection Hnew as <-; injection Hold as <-;
    try (intros H; exact H).
  - rewrite !has_type_object. destruct v; try discriminate.
    apply has_fields_incl. simpl. tauto.
  - rewrite !has_type_object. destruct v; try discriminate.
    apply has_fields_incl. simpl. tauto.
Qed.

Lemma params_accepted_by_part000_witness :
  has_type (TObject [req "line" Part000.Line; req "code" TString;
                     req "indent" TString])
    (VObj Samples.file_pragma_params) = true.
Proof.
  eapply (params_accepted_by_part000 "getIgnoreFilePragma").
  - simpl. tauto.
  - reflexivity.
  - reflexivity.
  - vm_compute. reflexivity.
Defined.

(** The converse fails: parameters without [document] are what part_000
    declares for [getIgnoreFilePragma], and index.d.ts refuses them. *)
Lemma params_part000_not_accepted :
  (∃ p, param_type Part000.Linter_fields "getIgnoreFilePragma" = Some p
        ∧ has_type p (VObj Samples.file_pragma_params_part000) = true)
  ∧ (∃ p, param_type IndexDts.Linter_fields "getIgnoreFilePragma" = Some p
          ∧ has_type p (VObj Samples.file_pragma_params_part000) = false).
Proof. split; eexists; split; reflexivity. Qed.




(** The converse fails: part_000 does not look at [shebangs], index.d.ts
    wants a list of strings there. *)
Lemma config_part000_not_accepted :
  has_type Part000.LinterConfig (VObj Samples.config_stray_shebangs) = true
  ∧ has_type IndexDts.LinterConfig (VObj Samples.config_stray_shebangs) = false.
Proof. split; vm_compute; reflexivity. Qed.

(** A list of tokens is a command, and so is a list of such lists, the
    empty list included. *)
Lemma command_accepts :
  (∀ tokens : list string,
     has_type IndexDts.Command (Samples.strings tokens) = true)
  ∧ (∀ commands : list (list string),
       has_type IndexDts.Command (VArr (map Samples.strings commands)) = true).
Proof.
  split.
  - intros tokens. unfold IndexDts.Command. rewrite has_type_union.
    by rewrite has_type_strings.
  - intros commands. unfold IndexDts.Command. rewrite has_type_union.
    apply orb_true_iff. right. cbn [has_type]. apply forallb_forall.
    intros x Hx. apply in_map_iff in Hx as (tokens & <- & _).
    apply has_type_strings.
Qed.

(** A command is all tokens or all token lists: every value of type
    [Command] is an array whose elements are all strings, or all arrays of
    strings. *)
Theorem command_flat_or_nested (v : value) :
  has_type IndexDts.Command v = true →
  ∃ items, v = VArr items
    ∧ (Forall (λ x, ∃ s, x = VStr s) items
       ∨ Forall (λ x, ∃ tokens, x = VArr tokens
                        ∧ Forall (λ y, ∃ s, y = VStr s) tokens) items).
Proof.
  unfold IndexDts.Command. rewrite has_type_union. intros H.
  apply orb_true_iff in H as [H | H].
  - apply has_type_strings_inv in H as (items & -> & Hitems). eauto.
  - destruct v as [ | | | | | | items | | | ]; try discriminate.
    exists items. split; [ reflexivity | right ].
    cbn [has_type] in H. rewrite forallb_forall in H.
    apply Forall_forall. intros x Hx.
    apply has_type_strings_inv. apply H. by apply list_elem_of_In.
Qed.

Lemma command_flat_or_nested_witness :
  ∃ items, Samples.strings ["luacheck"; "$file"] = VArr items
    ∧ (Forall (λ x, ∃ s, x = VStr s) items
       ∨ Forall (λ x, ∃ tokens, x = VArr tokens
                        ∧ Forall (λ y, ∃ s, y = VStr s) tokens) items).
Proof.
  apply (command_flat_or_nested (Samples.strings ["luacheck"; "$file"])).
  vm_compute. reflexivity.
Defined.

(** Tokens and token lists do not mix: an array that holds a string and an
    array is not a command. *)
Theorem command_mixed_refused (items : list value) (s : string)
        (tokens : list value) :
  In (VStr s) items → In (VArr tokens) items →
  has_type IndexDts.Command (VArr items) = false.
Proof.
  intros Hs Ht. unfold IndexDts.Command. rewrite has_type_union.
  apply orb_false_iff. split.
  - destruct (has_type (TArray TString) (VArr items)) eqn:H; [ | reflexivity ].
    apply has_type_strings_inv in H as (items' & Heq & Hflat).
    injection Heq as <-. rewrite Forall_forall in Hflat.
    destruct (Hflat (VArr tokens)) as [? Hx];
      [ by apply list_elem_of_In | discriminate ].
  - destruct (has_type (TArray (TArray TString)) (VArr items)) eqn:H;
      [ | reflexivity ].
    cbn [has_type] in H. rewrite forallb_forall in H.
    specialize (H _ Hs). discriminate.
Qed.

Lemma command_mixed_refused_witness :
  has_type IndexDts.Command Samples.command_mixed = false.
Proof.
  apply (command_mixed_refused _ "luacheck"
           [VStr "luacheck"; VStr "$file"]); simpl; tauto.
Defined.

End Declarations.
